(** * Custom filter lists of portmaster: lookups, domain splitting, reload

    A shallow embedding of [intel/customlists/module.go]: the four lookup
    functions, [splitDomain] and [checkAndUpdateFilterList], followed by the
    properties the specification states about them and by further properties
    read off the code. *)

From Stdlib Require Import ZArith Lia Ascii String List.
From stdpp Require Import base option list strings gmap.

Local Open Scope Z_scope.

(** ** Go strings

    A Go string is a sequence of bytes, here a [string] of 8-bit [ascii].
    The functions of package [strings] that the module calls are modelled on
    bytes.  Every separator the module uses is the ASCII dot, which never
    occurs inside a multi-byte UTF-8 sequence, so the rune-wise functions of
    Go agree with these byte-wise ones. *)
Module GoStrings.

Definition dot : ascii := "."%char.

(** [len(s)] *)
Definition len (s : string) : Z := Z.of_nat (String.length s).

(** The first [n] bytes of [s] (all of [s] when it is shorter). *)
Fixpoint take_bytes (n : nat) (s : string) : string :=
  match n, s with
  | S n', String a s' => String a (take_bytes n' s')
  | _, _ => ""
  end.

(** [s[:n]]: a runtime panic ([None]) unless [0 <= n <= len(s)]. *)
Definition slice_to (s : string) (n : Z) : option string :=
  if (n <? 0) || (len s <? n) then None else Some (take_bytes (Z.to_nat n) s).

(** The byte [s[len(s)-1]]: a runtime panic ([None]) on the empty string. *)
Fixpoint last_byte (s : string) : option ascii :=
  match s with
  | "" => None
  | String a "" => Some a
  | String _ s' => last_byte s'
  end.

Definition first_byte (s : string) : option ascii :=
  match s with
  | "" => None
  | String a _ => Some a
  end.

Fixpoint trimLeftByte (s : string) (c : ascii) : string :=
  match s with
  | "" => ""
  | String a s' => if Ascii.eqb a c then trimLeftByte s' c else s
  end.

Fixpoint trimRightByte (s : string) (c : ascii) : string :=
  match s with
  | "" => ""
  | String a s' =>
      match trimRightByte s' c with
      | "" => if Ascii.eqb a c then "" else String a ""
      | r => String a r
      end
  end.

(** [strings.Trim(s, cutset)] for a cutset of one ASCII byte [c]. *)
Definition Trim (s : string) (c : ascii) : string :=
  trimLeftByte (trimRightByte s c) c.

Definition push_field (cur : string) (fields : list string) : list string :=
  match cur with
  | "" => fields
  | _ => cur :: fields
  end.

(** The field that is open at the head of [s], and the fields after it. *)
Fixpoint fields_from (f : ascii → bool) (s : string) : string * list string :=
  match s with
  | "" => ("", [])
  | String a s' =>
      let '(cur, fields) := fields_from f s' in
      if f a then ("", push_field cur fields) else (String a cur, fields)
  end.

(** [strings.FieldsFunc(s, f)]: the maximal runs of bytes of [s] that do not
    satisfy [f], in order; never an empty field. *)
Definition FieldsFunc (s : string) (f : ascii → bool) : list string :=
  let '(cur, fields) := fields_from f s in push_field cur fields.

(** [strings.Join(elems, sep)] *)
Fixpoint Join (elems : list string) (sep : string) : string :=
  match elems with
  | [] => ""
  | [e] => e
  | e :: rest => e +:+ sep +:+ Join rest sep
  end.

End GoStrings.
Import GoStrings.

(** ** Domain splitting *)

Section SplitDomain.

(** [publicsuffix.PublicSuffix] of golang.org/x/net, first result. *)
Variable PublicSuffix : string → string.

(** The body of the loop of [splitDomain] at index [idx]. *)
Definition splitDomain_candidate
    (suffix : string) (splitted : list string) (idx : nat) : option string :=
  let d := Join (drop idx splitted) "." +:+ "." +:+ suffix in
  c ← last_byte d;
  Some (if Ascii.eqb c dot then d else d +:+ ".").

Definition splitDomain (domain : string) : option (list string) :=
  let domain := Trim domain dot in
  let suffix := PublicSuffix domain in
  if String.eqb suffix domain then Some [domain]
  else
    domainWithoutSuffix ← slice_to domain (len domain - len suffix);
    let domainWithoutSuffix := Trim domainWithoutSuffix dot in
    let splitted := FieldsFunc domainWithoutSuffix (λ r, Ascii.eqb r dot) in
    mapM (splitDomain_candidate suffix splitted) (seq 0 (length splitted)).

End SplitDomain.

(** ** The filter lists and their lookups *)

(** The four package-level maps, each a [map[K]struct{}] used as a set. *)
Record FilterLists := {
  countryCodesFilterList : gset string;
  ipAddressesFilterList : gset string;
  autonomousSystemsFilterList : gset N;
  domainsFilterList : gset string
}.

(** A [time.Time] as an instant in nanoseconds; [Time.Equal] compares
    instants. *)
Definition Time := Z.
Definition Time_Equal (t u : Time) : bool := Z.eqb t u.
Definition Minute : Z := 60 * 1000000000.

(** The package-level state that [filterListLock] guards. *)
Record State := {
  lists : FilterLists;
  filterListFilePath : string;
  filterListFileModifiedTime : Time
}.

Definition initFilterLists : FilterLists :=
  {| countryCodesFilterList := ∅; ipAddressesFilterList := ∅;
     autonomousSystemsFilterList := ∅; domainsFilterList := ∅ |}.

Definition initial_state : State :=
  {| lists := initFilterLists; filterListFilePath := "";
     filterListFileModifiedTime := 0 |}.

Section Lookups.

Variable PublicSuffix : string → string.
(** [net.IP] and its method [String]. *)
Variable IP : Type.
Variable IP_String : IP → string.

Definition LookupIP (st : State) (ip : IP) : bool :=
  bool_decide (IP_String ip ∈ ipAddressesFilterList (lists st)).

(** The [range] loop of [LookupDomain]: the first listed candidate. *)
Fixpoint LookupDomain_range
    (domains : gset string) (listOfDomains : list string) : bool * string :=
  match listOfDomains with
  | [] => (false, "")
  | domain :: rest =>
      if bool_decide (domain ∈ domains) then (true, domain)
      else LookupDomain_range domains rest
  end.

(** [None] is the runtime panic of [splitDomain]. *)
Definition LookupDomain
    (st : State) (fullDomain : string) (filterSubdomains : bool)
    : option (bool * string) :=
  if filterSubdomains then
    listOfDomains ← splitDomain PublicSuffix fullDomain;
    Some (LookupDomain_range (domainsFilterList (lists st)) listOfDomains)
  else
    Some (bool_decide (fullDomain ∈ domainsFilterList (lists st)), fullDomain).

Definition LookupASN (st : State) (number : N) : bool :=
  bool_decide (number ∈ autonomousSystemsFilterList (lists st)).

Definition LookupCountry (st : State) (countryCode : string) : bool :=
  bool_decide (countryCode ∈ countryCodesFilterList (lists st)).

End Lookups.

(** ** Reload *)

Inductive error := ParseError.

(** What one run of [checkAndUpdateFilterList] finds around it. *)
Record Env := {
  (** [getFilePath()]: the configured path, empty when unset *)
  getFilePath : string;
  (** [time.Now()] as read for [parserTask.Schedule] *)
  now_schedule : Time;
  (** [time.Now()] as read before [os.Stat] *)
  now_stat : Time;
  (** [os.Stat(path)]: the [ModTime] of the file, [None] on error *)
  os_Stat : string → option Time;
  (** [parseFile(path)] run on the current maps: the maps it leaves and the
      error it returns ([None] is [nil]) *)
  parseFile : string → FilterLists → FilterLists * option error
}.

(** The calls one run makes, in order. *)
Inductive Event :=
| ScheduleEv (at_time : Time)
| StatEv (path : string)
| ParseEv (path : string) (err : option error).

Definition is_schedule (e : Event) : bool :=
  match e with ScheduleEv _ => true | _ => false end.
Definition is_parse (e : Event) : bool :=
  match e with ParseEv _ _ => true | _ => false end.

(** [filterListLock] is held for the whole run, so the run is one step. *)
Definition checkAndUpdateFilterList (env : Env) (st : State) : State * list Event :=
  let filePath := getFilePath env in
  if String.eqb filePath "" then (st, [])
  else
    let scheduled := ScheduleEv (now_schedule env + 1 * Minute) in
    let modifiedTime :=
      match os_Stat env filePath with
      | Some modTime => modTime
      | None => now_stat env
      end in
    if negb (String.eqb (filterListFilePath st) filePath)
       || negb (Time_Equal (filterListFileModifiedTime st) modifiedTime)
    then
      let '(parsed, err) := parseFile env filePath (lists st) in
      let trace := [scheduled; StatEv filePath; ParseEv filePath err] in
      match err with
      | Some _ =>
          ({| lists := parsed;
              filterListFilePath := filterListFilePath st;
              filterListFileModifiedTime := filterListFileModifiedTime st |},
           trace)
      | None =>
          ({| lists := parsed;
              filterListFilePath := filePath;
              filterListFileModifiedTime := modifiedTime |},
           trace)
      end
    else (st, [scheduled; StatEv filePath]).

(** The modification time a run compares with the recorded one: the file's
    when the stat succeeds, else the time read before the stat. *)
Definition modifiedTime (env : Env) : Time :=
  match os_Stat env (getFilePath env) with
  | Some modTime => modTime
  | None => now_stat env
  end.

(** The periodic task, the configuration hook and the API endpoint that
    [start] registers all call [checkAndUpdateFilterList]; a sequence of
    triggers is a sequence of runs, each in the surroundings it finds. *)
Fixpoint runs (envs : list Env) (st : State) : State * list (list Event) :=
  match envs with
  | [] => (st, [])
  | env :: rest =>
      let '(st1, trace) := checkAndUpdateFilterList env st in
      let '(st2, traces) := runs rest st1 in
      (st2, trace :: traces)
  end.

(** ** Helpers for parsing the input file *)

Definition is_upper (a : ascii) : bool :=
  (65 <=? N_of_ascii a)%N && (N_of_ascii a <=? 90)%N.

Definition is_digit (a : ascii) : bool :=
  (48 <=? N_of_ascii a)%N && (N_of_ascii a <=? 57)%N.

Fixpoint all_digits (s : string) : bool :=
  match s with
  | "" => true
  | String a s' => is_digit a && all_digits s'
  end.

(** [regexp.MustCompile("^[A-Z]{2}$").MatchString] *)
Definition isCountryCode (s : string) : bool :=
  match s with
  | String a (String b "") => is_upper a && is_upper b
  | _ => false
  end.

(** [regexp.MustCompile(`^AS[0-9]+$`).MatchString] *)
Definition isAutonomousSystem (s : string) : bool :=
  match s with
  | String "A" (String "S" digits) => negb (String.eqb digits "") && all_digits digits
  | _ => false
  end.

(** Modelled from the spec: [parseFile], which is declared in a file of the
    package that is not among the sources.  The parser turns the file into
    four new sets; when it succeeds they replace the old ones together, and
    when it fails the store is left untouched.  [parsed path] is what the
    parser makes of the file at [path], [None] when it cannot parse it. *)
Definition parseFile_spec (parsed : string → option FilterLists)
    (filePath : string) (old : FilterLists) : FilterLists * option error :=
  match parsed filePath with
  | Some new => (new, None)
  | None => (old, Some ParseError)
  end.

(** ** Vocabulary of the specification *)

(** No byte of [s] is a dot. *)
Fixpoint dotfree (s : string) : bool :=
  match s with
  | "" => true
  | String a s' => negb (Ascii.eqb a dot) && dotfree s'
  end.

(** A label of a domain name: not empty, no dot inside. *)
Definition is_label (l : string) : bool := negb (String.eqb l "") && dotfree l.

(** [s] without its last byte. *)
Fixpoint but_last (s : string) : string :=
  match s with
  | "" => ""
  | String _ "" => ""
  | String a s' => String a (but_last s')
  end.

Definition ends_in_dot (s : string) : bool :=
  match last_byte s with
  | Some c => Ascii.eqb c dot
  | None => false
  end.

(** [s] ends in a dot and the byte before it, if any, is not a dot. *)
Definition ends_in_one_dot (s : string) : bool :=
  ends_in_dot s && negb (ends_in_dot (but_last s)).

(** [s] is a suffix of [t]. *)
Definition is_suffix_of (s t : string) : Prop := ∃ p, t = p +:+ s.

(** The name made of the labels from the [i]-th on and the suffix, written
    with its trailing dot. *)
Definition candidate (labels : list string) (suffix : string) (i : nat) : string :=
  Join (drop i labels) "." +:+ "." +:+ suffix +:+ ".".

(** Every byte of [s] is a dot; so for the empty string. *)
Fixpoint dots_only (s : string) : bool :=
  match s with
  | "" => true
  | String a s' => Ascii.eqb a dot && dots_only s'
  end.

(** ** Sample data *)

(** A public suffix list that knows the rule [co.uk] and otherwise applies
    the default rule, under which the last label is the suffix. *)
Definition sample_PublicSuffix (domain : string) : string :=
  match reverse (FieldsFunc domain (λ r, Ascii.eqb r dot)) with
  | "uk" :: "co" :: _ => "co.uk"
  | tld :: _ => tld
  | [] => ""
  end.

Definition sample_lists : FilterLists :=
  {| countryCodesFilterList := {["US"]};
     ipAddressesFilterList := {["203.0.113.5"]};
     autonomousSystemsFilterList := {[1234%N]};
     domainsFilterList := {["example.co.uk."]} |}.

Definition sample_state : State :=
  {| lists := sample_lists;
     filterListFilePath := "/etc/portmaster/custom.list";
     filterListFileModifiedTime := 1700000000 * 1000000000 |}.

(** A run in which the configured file is the loaded one, has been touched
    since, and no longer parses. *)
Definition sample_env_broken : Env :=
  {| getFilePath := "/etc/portmaster/custom.list";
     now_schedule := 1700000600 * 1000000000;
     now_stat := 1700000600 * 1000000000 + 1000;
     os_Stat := λ _, Some (1700000500 * 1000000000);
     parseFile := parseFile_spec (λ _, None) |}.

(** A run in which the configured file is the loaded one, untouched. *)
Definition sample_env_unchanged : Env :=
  {| getFilePath := "/etc/portmaster/custom.list";
     now_schedule := 1700000600 * 1000000000;
     now_stat := 1700000600 * 1000000000 + 1000;
     os_Stat := λ _, Some (1700000000 * 1000000000);
     parseFile := parseFile_spec (λ _, Some initFilterLists) |}.

(** A run in which the configured file cannot be stat'ed but parses. *)
Definition sample_env_nostat : Env :=
  {| getFilePath := "/etc/portmaster/custom.list";
     now_schedule := 1700000600 * 1000000000;
     now_stat := 1700000600 * 1000000000 + 1000;
     os_Stat := λ _, None;
     parseFile := parseFile_spec (λ _, Some initFilterLists) |}.

(** [sample_state] with one more domain listed. *)
Definition sample_state_more : State :=
  {| lists :=
       {| countryCodesFilterList := {["US"]};
          ipAddressesFilterList := {["203.0.113.5"]};
          autonomousSystemsFilterList := {[1234%N]};
          domainsFilterList := {["example.co.uk."; "a.example.co.uk."]} |};
     filterListFilePath := "/etc/portmaster/custom.list";
     filterListFileModifiedTime := 1700000000 * 1000000000 |}.

(** A run in which the configured file is the loaded one, has been touched
    since, and parses. *)
Definition sample_env_touched : Env :=
  {| getFilePath := "/etc/portmaster/custom.list";
     now_schedule := 1700000600 * 1000000000;
     now_stat := 1700000600 * 1000000000 + 1000;
     os_Stat := λ _, Some (1700000500 * 1000000000);
     parseFile := parseFile_spec (λ _, Some initFilterLists) |}.

(** The run a minute after [sample_env_nostat], the stat failing again. *)
Definition sample_env_nostat_later : Env :=
  {| getFilePath := "/etc/portmaster/custom.list";
     now_schedule := 1700000660 * 1000000000;
     now_stat := 1700000660 * 1000000000 + 1000;
     os_Stat := λ _, None;
     parseFile := parseFile_spec (λ _, Some initFilterLists) |}.

(** A run with no path configured. *)
Definition sample_env_unset : Env :=
  {| getFilePath := "";
     now_schedule := 1700000720 * 1000000000;
     now_stat := 1700000720 * 1000000000 + 1000;
     os_Stat := λ _, None;
     parseFile := parseFile_spec (λ _, None) |}.

(** ** The model on concrete inputs *)

Example Trim_dots : Trim "..a.example.co.uk." dot = "a.example.co.uk".
Proof. reflexivity. Qed.

Example FieldsFunc_runs :
  FieldsFunc "..a..b.c." (λ r, Ascii.eqb r dot) = ["a"; "b"; "c"].
Proof. reflexivity. Qed.

Example Join_labels : Join ["b"; "example"] "." = "b.example".
Proof. reflexivity. Qed.

Example slice_to_panics : slice_to "uk" (len "uk" - len "co.uk") = None.
Proof. reflexivity. Qed.

Example splitDomain_empty_labels :
  splitDomain sample_PublicSuffix ".a..example.co.uk." =
    Some ["a.example.co.uk."; "example.co.uk."].
Proof. reflexivity. Qed.

Example splitDomain_default_rule :
  splitDomain sample_PublicSuffix "www.example.com" =
    Some ["www.example.com."; "example.com."].
Proof. reflexivity. Qed.

Example splitDomain_single_label : splitDomain sample_PublicSuffix "localhost" = Some ["localhost"].
Proof. reflexivity. Qed.

Example LookupDomain_subdomain_hit :
  LookupDomain sample_PublicSuffix sample_state "a.example.co.uk" true
    = Some (true, "example.co.uk.").
Proof. by vm_compute. Qed.

Example LookupDomain_subdomain_miss :
  LookupDomain sample_PublicSuffix sample_state "a.example.org" true
    = Some (false, "").
Proof. by vm_compute. Qed.

Example LookupDomain_exact_hit :
  LookupDomain sample_PublicSuffix sample_state "example.co.uk." false
    = Some (true, "example.co.uk.").
Proof. by vm_compute. Qed.

Example checkAndUpdateFilterList_unset :
  checkAndUpdateFilterList
    {| getFilePath := ""; now_schedule := 0; now_stat := 0;
       os_Stat := λ _, None; parseFile := parseFile_spec (λ _, None) |}
    sample_state = (sample_state, []).
Proof. reflexivity. Qed.

(** ** Facts about the string functions *)

Module GoStringsFacts.

Lemma sapp_nil_l (s : string) : "" +:+ s = s.
Proof. reflexivity. Qed.

Lemma sapp_cons (a : ascii) (s t : string) : String a s +:+ t = String a (s +:+ t).
Proof. reflexivity. Qed.

Lemma sapp_empty_r (s : string) : s +:+ "" = s.
Proof. induction s as [|a s IH]; [done|]. by rewrite sapp_cons, IH. Qed.

Lemma sapp_assoc (s t u : string) : (s +:+ t) +:+ u = s +:+ t +:+ u.
Proof. induction s as [|a s IH]; [done|]. by rewrite !sapp_cons, IH. Qed.

Lemma slength_app (s t : string) :
  String.length (s +:+ t) = (String.length s + String.length t)%nat.
Proof. induction s as [|a s IH]; [done|]. rewrite sapp_cons. simpl. by rewrite IH. Qed.

Lemma take_bytes_app (p s : string) : take_bytes (String.length p) (p +:+ s) = p.
Proof.
  induction p as [|a p IH]; [by destruct s|].
  rewrite sapp_cons. simpl. by rewrite IH.
Qed.

(** Cutting a suffix off by its length leaves the prefix, without panic. *)
Lemma slice_to_prefix (p s : string) :
  slice_to (p +:+ s) (len (p +:+ s) - len s) = Some p.
Proof.
  unfold slice_to, len. rewrite slength_app.
  replace (Z.of_nat (String.length p + String.length s) - Z.of_nat (String.length s))
    with (Z.of_nat (String.length p)) by lia.
  rewrite Nat2Z.id, take_bytes_app.
  destruct (Z.ltb_spec (Z.of_nat (String.length p)) 0); [lia|].
  destruct (Z.ltb_spec (Z.of_nat (String.length p + String.length s))
              (Z.of_nat (String.length p))); [lia|done].
Qed.

Lemma last_byte_cons (a : ascii) (s : string) :
  s ≠ "" → last_byte (String a s) = last_byte s.
Proof. by destruct s. Qed.

Lemma last_byte_app (s t : string) : t ≠ "" → last_byte (s +:+ t) = last_byte t.
Proof.
  intros Ht. induction s as [|a s IH]; [done|].
  rewrite sapp_cons, <- IH. apply last_byte_cons. by destruct s, t.
Qed.

Lemma last_byte_None (s : string) : last_byte s = None → s = "".
Proof.
  induction s as [|a s IH]; [done|]. destruct s as [|b s]; [done|].
  intros H. by specialize (IH H).
Qed.

Lemma eqb_dot_true (a : ascii) : Ascii.eqb a dot = true ↔ a = dot.
Proof. apply Ascii.eqb_eq. Qed.

Lemma eqb_dot_false (a : ascii) : Ascii.eqb a dot = false ↔ a ≠ dot.
Proof. apply Ascii.eqb_neq. Qed.

(** *** Trimming *)

Lemma trimRightByte_last (s : string) (c : ascii) :
  last_byte (trimRightByte s c) ≠ Some c.
Proof.
  induction s as [|a s IH]; simpl; [done|].
  destruct (trimRightByte s c) as [|b r] eqn:E.
  - destruct (Ascii.eqb_spec a c); simpl; congruence.
  - exact IH.
Qed.

Lemma trimLeftByte_last (s : string) (c : ascii) :
  last_byte s ≠ Some c → last_byte (trimLeftByte s c) ≠ Some c.
Proof.
  induction s as [|a s IH]; simpl; [done|].
  destruct (Ascii.eqb_spec a c) as [->|Hne]; [|done].
  destruct s as [|b s]; [done|]. exact IH.
Qed.

Lemma trimLeftByte_first (s : string) (c : ascii) :
  first_byte (trimLeftByte s c) ≠ Some c.
Proof.
  induction s as [|a s IH]; simpl; [done|].
  destruct (Ascii.eqb_spec a c) as [->|Hne]; [done|]. simpl. congruence.
Qed.

(** A trimmed string neither begins nor ends with the byte trimmed. *)
Lemma Trim_last (s : string) (c : ascii) : last_byte (Trim s c) ≠ Some c.
Proof. apply trimLeftByte_last, trimRightByte_last. Qed.

Lemma Trim_first (s : string) (c : ascii) : first_byte (Trim s c) ≠ Some c.
Proof. apply trimLeftByte_first. Qed.

Lemma trimRightByte_id (s : string) (c : ascii) :
  last_byte s ≠ Some c → trimRightByte s c = s.
Proof.
  induction s as [|a s IH]; simpl; [done|].
  destruct s as [|b s].
  - simpl. destruct (Ascii.eqb_spec a c); congruence.
  - intros H. rewrite (IH H). done.
Qed.

Lemma trimLeftByte_id (s : string) (c : ascii) :
  first_byte s ≠ Some c → trimLeftByte s c = s.
Proof.
  destruct s as [|a s]; simpl; [done|].
  destruct (Ascii.eqb_spec a c); congruence.
Qed.

Lemma Trim_id (s : string) (c : ascii) :
  first_byte s ≠ Some c → last_byte s ≠ Some c → Trim s c = s.
Proof.
  intros Hf Hl. unfold Trim. rewrite trimRightByte_id by done.
  by apply trimLeftByte_id.
Qed.

Lemma trimRightByte_snoc (s : string) (c : ascii) :
  trimRightByte (s +:+ String c "") c = trimRightByte s c.
Proof.
  induction s as [|a s IH].
  - simpl. by rewrite Ascii.eqb_refl.
  - rewrite sapp_cons. simpl. by rewrite IH.
Qed.

Lemma Trim_snoc (s : string) (c : ascii) :
  Trim (s +:+ String c "") c = Trim s c.
Proof. unfold Trim. by rewrite trimRightByte_snoc. Qed.

(** *** Labels, fields and joins *)

Lemma dotfree_last (s : string) : dotfree s = true → last_byte s ≠ Some dot.
Proof.
  induction s as [|a s IH]; [done|]. simpl.
  intros [Ha Hs]%andb_prop. destruct s as [|b s].
  - apply negb_true_iff, eqb_dot_false in Ha. congruence.
  - by apply IH.
Qed.

Lemma dotfree_first (s : string) : dotfree s = true → first_byte s ≠ Some dot.
Proof.
  destruct s as [|a s]; [done|]. simpl.
  intros [Ha _]%andb_prop. apply negb_true_iff, eqb_dot_false in Ha. congruence.
Qed.

Lemma is_label_inv (l : string) : is_label l = true → l ≠ "" ∧ dotfree l = true.
Proof.
  unfold is_label. intros [Hne Hd]%andb_prop. split; [|done].
  by apply negb_true_iff, String.eqb_neq in Hne.
Qed.

Lemma first_byte_app (s t : string) : s ≠ "" → first_byte (s +:+ t) = first_byte s.
Proof. by destruct s. Qed.

Lemma sapp_eq_empty (s t : string) : s +:+ t = "" → s = "" ∧ t = "".
Proof. destruct s; [|done]. rewrite sapp_nil_l. by intros ->. Qed.

Lemma Join_cons2 (e e' : string) (rest : list string) (sep : string) :
  Join (e :: e' :: rest) sep = e +:+ sep +:+ Join (e' :: rest) sep.
Proof. reflexivity. Qed.

Lemma Join_nonempty (l : list string) :
  l ≠ [] → Forall (λ e, is_label e = true) l → Join l "." ≠ "".
Proof.
  destruct l as [|e [|e' r]]; [done| |].
  - intros _ [[He _]%is_label_inv _]%Forall_cons. done.
  - intros _ [[He _]%is_label_inv _]%Forall_cons. rewrite Join_cons2.
    intros [? _]%sapp_eq_empty. done.
Qed.

Lemma Join_last (l : list string) :
  Forall (λ e, is_label e = true) l → last_byte (Join l ".") ≠ Some dot.
Proof.
  induction l as [|e r IH]; [done|]. intros [He Hr]%Forall_cons.
  destruct r as [|e' r].
  - simpl. apply dotfree_last. by apply is_label_inv in He as [_ ?].
  - rewrite Join_cons2, !last_byte_app; [by apply IH| |].
    + by apply Join_nonempty.
    + done.
Qed.

Lemma Join_first (l : list string) :
  Forall (λ e, is_label e = true) l → first_byte (Join l ".") ≠ Some dot.
Proof.
  destruct l as [|e [|e' r]]; [done| |];
    intros [[He Hd]%is_label_inv _]%Forall_cons.
  - by apply dotfree_first.
  - rewrite Join_cons2, first_byte_app by done. by apply dotfree_first.
Qed.

Lemma fields_from_label (l rest : string) :
  dotfree l = true →
  fields_from (λ r, Ascii.eqb r dot) (l +:+ rest) =
    (l +:+ (fields_from (λ r, Ascii.eqb r dot) rest).1,
     (fields_from (λ r, Ascii.eqb r dot) rest).2).
Proof.
  induction l as [|a l IH]; intros Hd.
  - rewrite !sapp_nil_l. by destruct (fields_from _ rest).
  - simpl in Hd. apply andb_prop in Hd as [Ha Hl].
    rewrite sapp_cons. simpl. rewrite (IH Hl).
    apply negb_true_iff in Ha. by rewrite Ha.
Qed.

Lemma fields_from_Join (e : string) (r : list string) :
  Forall (λ e, is_label e = true) (e :: r) →
  fields_from (λ r, Ascii.eqb r dot) (Join (e :: r) ".") = (e, r).
Proof.
  revert e. induction r as [|e' r IH]; intros e [He Hr]%Forall_cons.
  - apply is_label_inv in He as [_ Hd].
    rewrite <- (sapp_empty_r (Join [e] ".")). rewrite fields_from_label by done.
    simpl. by rewrite sapp_empty_r.
  - apply is_label_inv in He as [_ Hd].
    rewrite Join_cons2, fields_from_label by done.
    change ("." +:+ Join (e' :: r) ".") with (String dot (Join (e' :: r) ".")).
    cbn [fields_from]. rewrite (IH e' Hr), Ascii.eqb_refl. simpl.
    rewrite sapp_empty_r. f_equal.
    apply Forall_cons in Hr as [[He' _]%is_label_inv _]. by destruct e'.
Qed.

(** Splitting a dotted name of labels gives the labels back. *)
Lemma FieldsFunc_Join (l : list string) :
  Forall (λ e, is_label e = true) l →
  FieldsFunc (Join l ".") (λ r, Ascii.eqb r dot) = l.
Proof.
  destruct l as [|e r]; [done|]. intros H. unfold FieldsFunc.
  rewrite (fields_from_Join _ _ H).
  apply Forall_cons in H as [[He _]%is_label_inv _]. by destruct e.
Qed.

Lemma push_field_labels (cur : string) (fields : list string) :
  dotfree cur = true → Forall (λ e, is_label e = true) fields →
  Forall (λ e, is_label e = true) (push_field cur fields).
Proof.
  intros Hc Hf. destruct cur as [|a cur]; [done|].
  apply Forall_cons. split; [|done]. unfold is_label. by rewrite Hc.
Qed.

Lemma fields_from_labels (s : string) :
  dotfree (fields_from (λ r, Ascii.eqb r dot) s).1 = true ∧
  Forall (λ e, is_label e = true) (fields_from (λ r, Ascii.eqb r dot) s).2.
Proof.
  induction s as [|a s [IHc IHf]]; [done|]. simpl.
  destruct (fields_from _ s) as [cur fields]. simpl in *.
  destruct (Ascii.eqb a dot) eqn:Ea; simpl.
  - split; [done|]. by apply push_field_labels.
  - by rewrite Ea, IHc.
Qed.

(** Every field of a name split at its dots is a label. *)
Lemma FieldsFunc_labels (s : string) :
  Forall (λ e, is_label e = true) (FieldsFunc s (λ r, Ascii.eqb r dot)).
Proof.
  unfold FieldsFunc. pose proof (fields_from_labels s) as [Hc Hf].
  destruct (fields_from _ s) as [cur fields]. by apply push_field_labels.
Qed.

(** *** Trailing dots *)

Lemma last_byte_snoc (s : string) (a : ascii) : last_byte (s +:+ String a "") = Some a.
Proof. by rewrite last_byte_app. Qed.

Lemma but_last_snoc (s : string) (a : ascii) : but_last (s +:+ String a "") = s.
Proof.
  induction s as [|b s IH]; [done|]. rewrite sapp_cons.
  destruct s as [|c s]; [done|].
  rewrite sapp_cons in *.
  change (but_last (String b (String c (s +:+ String a ""))))
    with (String b (but_last (String c (s +:+ String a "")))).
  by rewrite IH.
Qed.

Lemma ends_in_one_dot_snoc (body : string) :
  last_byte body ≠ Some dot → ends_in_one_dot (body +:+ ".") = true.
Proof.
  intros H. unfold ends_in_one_dot, ends_in_dot.
  change "."%string with (String dot ""). rewrite last_byte_snoc, but_last_snoc.
  rewrite Ascii.eqb_refl. simpl. destruct (last_byte body) as [c|]; [|done].
  apply negb_true_iff, Ascii.eqb_neq. congruence.
Qed.

Lemma ends_in_one_dot_inv (s : string) :
  ends_in_one_dot s = true → ∃ body, s = body +:+ "." ∧ last_byte body ≠ Some dot.
Proof.
  unfold ends_in_one_dot, ends_in_dot. intros [H1 H2]%andb_prop.
  exists (but_last s). split.
  - clear H2. induction s as [|a s IH]; [done|].
    destruct s as [|b s].
    + simpl in H1. apply eqb_dot_true in H1. by subst.
    + change (but_last (String a (String b s)))
        with (String a (but_last (String b s))).
      rewrite sapp_cons. f_equal. apply IH. exact H1.
  - destruct (last_byte (but_last s)) as [c|]; [|done].
    apply negb_true_iff, Ascii.eqb_neq in H2. congruence.
Qed.

End GoStringsFacts.
Import GoStringsFacts.

(** ** Facts about [splitDomain] and [LookupDomain] *)

Lemma mapM_total_map {A B} (f : A → option B) (g : A → B) (l : list A) :
  (∀ x, f x = Some (g x)) → mapM f l = Some (g <$> l).
Proof.
  intros H. induction l as [|x l IH]; [done|]. simpl. by rewrite H, IH.
Qed.

Lemma mapM_total_Forall {A B} (f : A → option B) (P : B → Prop) (l : list A) :
  (∀ x, ∃ y, f x = Some y ∧ P y) → ∃ k, mapM f l = Some k ∧ Forall P k.
Proof.
  intros H. induction l as [|x l (k & Hk & HP)]; [by exists []|].
  destruct (H x) as (y & Hy & Py). exists (y :: k). simpl.
  rewrite Hy, Hk. split; [done|]. by apply Forall_cons.
Qed.

Lemma sapp_neq_r (p s : string) : p ≠ "" → p +:+ s ≠ s.
Proof.
  intros Hp E. apply (f_equal String.length) in E. rewrite slength_app in E.
  destruct p; [done|]. simpl in E. lia.
Qed.

(** A non-empty suffix that does not end in a dot: the candidate is the
    joined labels, a dot, the suffix and one closing dot. *)
Lemma splitDomain_candidate_suffix (suffix : string) (splitted : list string) (idx : nat) :
  suffix ≠ "" → last_byte suffix ≠ Some dot →
  splitDomain_candidate suffix splitted idx =
    Some (Join (drop idx splitted) "." +:+ "." +:+ suffix +:+ ".").
Proof.
  intros Hne Hl. unfold splitDomain_candidate.
  rewrite !last_byte_app by done.
  destruct (last_byte suffix) as [c|] eqn:E; [|by apply last_byte_None in E].
  simpl. destruct (Ascii.eqb_spec c dot) as [->|_]; [done|].
  by rewrite !sapp_assoc.
Qed.

(** An empty suffix: the dot after the labels already closes the candidate. *)
Lemma splitDomain_candidate_empty (splitted : list string) (idx : nat) :
  splitDomain_candidate "" splitted idx = Some (Join (drop idx splitted) "." +:+ ".").
Proof.
  unfold splitDomain_candidate. rewrite sapp_empty_r.
  change "."%string with (String dot ""). by rewrite last_byte_snoc.
Qed.

Lemma splitDomain_candidate_one_dot (suffix : string) (splitted : list string) (idx : nat) :
  Forall (λ e, is_label e = true) splitted → last_byte suffix ≠ Some dot →
  ∃ c, splitDomain_candidate suffix splitted idx = Some c ∧ ends_in_one_dot c = true.
Proof.
  intros Hs Hl. destruct (decide (suffix = "")) as [->|Hne].
  - eexists. split; [apply splitDomain_candidate_empty|].
    apply ends_in_one_dot_snoc, Join_last. by apply Forall_drop.
  - eexists. split; [by apply splitDomain_candidate_suffix|].
    rewrite <- !sapp_assoc. apply ends_in_one_dot_snoc.
    by rewrite last_byte_app.
Qed.

(** A suffix of a trimmed name does not end in a dot. *)
Lemma suffix_of_trimmed_last (domain suffix : string) :
  is_suffix_of suffix (Trim domain dot) → last_byte suffix ≠ Some dot.
Proof.
  intros [p Hp]. destruct (decide (suffix = "")) as [->|Hne]; [done|].
  rewrite <- (last_byte_app p) by done. rewrite <- Hp. apply Trim_last.
Qed.

Lemma LookupDomain_range_true (domains : gset string) (l : list string) (m : string) :
  LookupDomain_range domains l = (true, m) → m ∈ l ∧ m ∈ domains.
Proof.
  induction l as [|d l IH]; simpl; [done|].
  case_bool_decide as Hd.
  - intros [= <-]. split; [apply list_elem_of_here|done].
  - intros [Hm ?]%IH. split; [by apply list_elem_of_further|done].
Qed.

(** The loop returns the first listed candidate when there is one. *)
Lemma LookupDomain_range_first (domains : gset string) (l : list string) (i : nat) (x : string) :
  l !! i = Some x → x ∈ domains →
  ∃ k m, (k ≤ i)%nat ∧ l !! k = Some m ∧ m ∈ domains ∧
         LookupDomain_range domains l = (true, m) ∧
         ∀ j y, (j < k)%nat → l !! j = Some y → y ∉ domains.
Proof.
  revert i. induction l as [|d l IH]; intros i Hi Hx; [done|]. simpl.
  case_bool_decide as Hd.
  - exists 0%nat, d. repeat split; [lia|done|]. intros j y Hj. lia.
  - destruct i as [|i]; [simpl in Hi; congruence|].
    destruct (IH i Hi Hx) as (k & m & Hk & Hm & Hin & Hr & Hbefore).
    exists (S k), m. repeat split; [lia|done..|].
    intros [|j] y Hj Hy; simpl in Hy; [congruence|].
    apply (Hbefore j); [lia|done].
Qed.

Section SplitDomainFacts.

Variable PublicSuffix : string → string.

(** The candidates of a name made of labels and its public suffix. *)
Lemma splitDomain_labels (domain : string) (labels : list string) (suffix : string) :
  labels ≠ [] → Forall (λ e, is_label e = true) labels →
  Trim domain dot = Join labels "." +:+ "." +:+ suffix →
  PublicSuffix (Trim domain dot) = suffix →
  splitDomain PublicSuffix domain =
    Some (candidate labels suffix <$> seq 0 (length labels)).
Proof.
  intros Hne Hlabels Ht Hps.
  pose proof (Trim_last domain dot) as Hlast. rewrite Ht in Hlast.
  assert (suffix ≠ "") as Hsuffix.
  { intros ->. apply Hlast. rewrite sapp_empty_r.
    change "."%string with (String dot ""). apply last_byte_snoc. }
  rewrite !last_byte_app in Hlast by done.
  unfold splitDomain. rewrite Hps, Ht.
  destruct (String.eqb_spec suffix (Join labels "." +:+ "." +:+ suffix)) as [E|_].
  { symmetry in E. rewrite <- sapp_assoc in E. apply sapp_neq_r in E; [done|].
    intros [? _]%sapp_eq_empty. by apply (Join_nonempty labels). }
  pose proof (slice_to_prefix (Join labels "." +:+ ".") suffix) as Hslice.
  rewrite sapp_assoc in Hslice. rewrite Hslice. simpl.
  change "."%string with (String dot "").
  rewrite Trim_snoc, Trim_id by (by apply Join_first || by apply Join_last).
  rewrite FieldsFunc_Join by done.
  apply mapM_total_map. intros idx. by apply splitDomain_candidate_suffix.
Qed.

(** When the suffix is a proper suffix of the trimmed name, there is no
    panic and every candidate ends in exactly one dot. *)
Lemma splitDomain_one_dot (domain : string) :
  is_suffix_of (PublicSuffix (Trim domain dot)) (Trim domain dot) →
  PublicSuffix (Trim domain dot) ≠ Trim domain dot →
  ∃ cands, splitDomain PublicSuffix domain = Some cands ∧
           Forall (λ c, ends_in_one_dot c = true) cands.
Proof.
  intros Hsuf Hne. pose proof (suffix_of_trimmed_last _ _ Hsuf) as Hl.
  destruct Hsuf as [p Hp]. unfold splitDomain.
  destruct (String.eqb_spec (PublicSuffix (Trim domain dot)) (Trim domain dot))
    as [?|_]; [done|].
  revert Hl Hp. generalize (PublicSuffix (Trim domain dot)). intros suffix Hl Hp.
  rewrite Hp, slice_to_prefix. simpl.
  apply mapM_total_Forall. intros idx.
  apply splitDomain_candidate_one_dot; [apply FieldsFunc_labels|done].
Qed.

Lemma splitDomain_own_suffix (domain : string) :
  PublicSuffix (Trim domain dot) = Trim domain dot →
  splitDomain PublicSuffix domain = Some [Trim domain dot].
Proof. intros H. unfold splitDomain. by rewrite H, String.eqb_refl. Qed.

Lemma Trim_ends_in_dot (domain : string) : ends_in_dot (Trim domain dot) = false.
Proof.
  unfold ends_in_dot. pose proof (Trim_last domain dot) as H.
  destruct (last_byte (Trim domain dot)) as [c|]; [|done].
  apply Ascii.eqb_neq. congruence.
Qed.

End SplitDomainFacts.

(** ** The claims about [splitDomain] and [LookupDomain] *)

(** C1, as the specification states it, fails: with [example.co.uk.] in the
    domain set, [LookupDomain("a.example.co.uk", false)] misses and returns
    the queried name as its second result, not the empty string. *)
Lemma LookupDomain_exact_miss_not_empty :
  ("a.example.co.uk" ∉ domainsFilterList (lists sample_state)) ∧
  LookupDomain sample_PublicSuffix sample_state "a.example.co.uk" false
    ≠ Some (false, "").
Proof. split; [by vm_compute|]. vm_compute. congruence. Qed.

(** C1, amended: for every domain that is not a key of the domain filter set,
    [LookupDomain(d, false)] returns [false] together with [d] itself. *)
Theorem LookupDomain_exact_miss
    (PublicSuffix : string → string) (st : State) (fullDomain : string) :
  fullDomain ∉ domainsFilterList (lists st) →
  LookupDomain PublicSuffix st fullDomain false = Some (false, fullDomain).
Proof. intros H. unfold LookupDomain. by rewrite bool_decide_eq_false_2. Qed.

Lemma LookupDomain_exact_miss_witness :
  ("a.example.co.uk" ∉ domainsFilterList (lists sample_state)) ∧
  LookupDomain sample_PublicSuffix sample_state "a.example.co.uk" false
    = Some (false, "a.example.co.uk").
Proof.
  assert ("a.example.co.uk" ∉ domainsFilterList (lists sample_state)) as H
    by (by vm_compute).
  split; [exact H|]. exact (LookupDomain_exact_miss _ _ _ H).
Defined.

(** C2: when the public suffix of [a.b.example.co.uk] is [co.uk],
    [splitDomain] returns [a.b.example.co.uk.], [b.example.co.uk.] and
    [example.co.uk.], in that order. *)
Theorem splitDomain_hierarchy_order (PublicSuffix : string → string) :
  PublicSuffix "a.b.example.co.uk" = "co.uk" →
  splitDomain PublicSuffix "a.b.example.co.uk" =
    Some ["a.b.example.co.uk."; "b.example.co.uk."; "example.co.uk."].
Proof.
  intros H.
  rewrite (splitDomain_labels PublicSuffix _ ["a"; "b"; "example"] "co.uk");
    [done|done|by repeat constructor|done|exact H].
Qed.

Lemma splitDomain_hierarchy_order_witness :
  sample_PublicSuffix "a.b.example.co.uk" = "co.uk" ∧
  splitDomain sample_PublicSuffix "a.b.example.co.uk" =
    Some ["a.b.example.co.uk."; "b.example.co.uk."; "example.co.uk."].
Proof.
  split; [reflexivity|]. apply splitDomain_hierarchy_order. reflexivity.
Defined.

(** C3: when the domain set holds the registrable root of the queried name,
    written with its trailing dot, [LookupDomain] with [filterSubdomains]
    returns [true] with the first candidate that is listed, the candidates
    being tried from the full name down to the root; it is the root entry
    itself when no more specific candidate is listed. *)
Theorem LookupDomain_registrable_root
    (PublicSuffix : string → string) (st : State) (fullDomain : string)
    (subs : list string) (root suffix : string) :
  forallb is_label (subs ++ [root]) = true →
  Trim fullDomain dot = Join (subs ++ [root]) "." +:+ "." +:+ suffix →
  PublicSuffix (Trim fullDomain dot) = suffix →
  (root +:+ "." +:+ suffix +:+ ".") ∈ domainsFilterList (lists st) →
  ∃ k, (k ≤ length subs)%nat ∧
    LookupDomain PublicSuffix st fullDomain true
      = Some (true, candidate (subs ++ [root]) suffix k) ∧
    candidate (subs ++ [root]) suffix k ∈ domainsFilterList (lists st) ∧
    (∀ j, (j < k)%nat →
       candidate (subs ++ [root]) suffix j ∉ domainsFilterList (lists st)) ∧
    ((∀ j, (j < length subs)%nat →
        candidate (subs ++ [root]) suffix j ∉ domainsFilterList (lists st)) →
     LookupDomain PublicSuffix st fullDomain true
       = Some (true, root +:+ "." +:+ suffix +:+ ".")).
Proof.
  intros Hlabels Ht Hps Hroot.
  assert (Forall (λ e, is_label e = true) (subs ++ [root])) as HF.
  { apply Forall_forall. intros x Hx. apply list_elem_of_In in Hx.
    by apply (proj1 (forallb_forall _ _) Hlabels). }
  assert (candidate (subs ++ [root]) suffix (length subs)
          = root +:+ "." +:+ suffix +:+ ".") as Hlastc.
  { unfold candidate. by rewrite drop_app_length. }
  unfold LookupDomain.
  rewrite (splitDomain_labels PublicSuffix fullDomain (subs ++ [root]) suffix)
    by (done || by destruct subs).
  simpl.
  set (cands := candidate (subs ++ [root]) suffix <$> seq 0 (length (subs ++ [root]))).
  assert (∀ i, (i ≤ length subs)%nat →
               cands !! i = Some (candidate (subs ++ [root]) suffix i)) as Hcands.
  { intros i Hi. unfold cands. rewrite list_lookup_fmap, lookup_seq_lt; [done|].
    rewrite length_app. simpl. lia. }
  destruct (LookupDomain_range_first (domainsFilterList (lists st)) cands
              (length subs) (root +:+ "." +:+ suffix +:+ "."))
    as (k & m & Hk & Hm & Hin & Hr & Hbefore); [|done|].
  { by rewrite Hcands, Hlastc. }
  rewrite Hcands in Hm by done. injection Hm as <-.
  exists k. split; [done|]. split; [by rewrite Hr|]. split; [done|]. split.
  - intros j Hj. apply (Hbefore j); [done|]. apply Hcands. lia.
  - intros Hnone. rewrite Hr. do 3 f_equal. rewrite <- Hlastc. f_equal.
    destruct (decide (k = length subs)) as [|Hlt]; [done|].
    exfalso. apply (Hnone k); [lia|done].
Qed.

Lemma LookupDomain_registrable_root_witness :
  LookupDomain sample_PublicSuffix sample_state "a.example.co.uk" true
    = Some (true, "example.co.uk.").
Proof.
  destruct (LookupDomain_registrable_root sample_PublicSuffix sample_state
              "a.example.co.uk" ["a"] "example" "co.uk")
    as (k & _ & _ & _ & _ & H); [reflexivity|reflexivity|reflexivity|by vm_compute|].
  apply H. intros [|j] Hj; [by vm_compute|simpl in Hj; lia].
Defined.

(** C4: when the dot-trimmed input is its own public suffix, [splitDomain]
    returns that trimmed input as its only candidate, and the candidate does
    not end in a dot. *)
Theorem splitDomain_bare_suffix (PublicSuffix : string → string) (domain : string) :
  PublicSuffix (Trim domain dot) = Trim domain dot →
  splitDomain PublicSuffix domain = Some [Trim domain dot] ∧
  ends_in_dot (Trim domain dot) = false.
Proof.
  intros H. split; [by apply splitDomain_own_suffix|apply Trim_ends_in_dot].
Qed.

Lemma splitDomain_bare_suffix_witness :
  sample_PublicSuffix (Trim "co.uk" dot) = Trim "co.uk" dot ∧
  splitDomain sample_PublicSuffix "co.uk" = Some ["co.uk"] ∧
  ends_in_dot "co.uk" = false.
Proof.
  split; [reflexivity|].
  apply (splitDomain_bare_suffix sample_PublicSuffix "co.uk"). reflexivity.
Defined.

(** C10: when the public suffix is a proper suffix of the dot-trimmed input,
    every candidate of [splitDomain] ends in exactly one dot, so a match of
    [LookupDomain] with [filterSubdomains] is an entry of the set that ends
    in one dot; when the trimmed input is its own public suffix, the single
    candidate is that input, with no dot appended. *)
Theorem splitDomain_trailing_dot (PublicSuffix : string → string) (domain : string) :
  is_suffix_of (PublicSuffix (Trim domain dot)) (Trim domain dot) →
  (PublicSuffix (Trim domain dot) ≠ Trim domain dot →
   ∃ cands, splitDomain PublicSuffix domain = Some cands ∧
     Forall (λ c, ends_in_one_dot c = true) cands ∧
     ∀ st m, LookupDomain PublicSuffix st domain true = Some (true, m) →
             m ∈ domainsFilterList (lists st) ∧ ends_in_one_dot m = true) ∧
  (PublicSuffix (Trim domain dot) = Trim domain dot →
   splitDomain PublicSuffix domain = Some [Trim domain dot] ∧
   ends_in_dot (Trim domain dot) = false).
Proof.
  intros Hsuf. split.
  - intros Hne.
    destruct (splitDomain_one_dot PublicSuffix domain Hsuf Hne) as (cands & Hc & Hdots).
    exists cands. split; [done|]. split; [done|].
    intros st m. unfold LookupDomain. rewrite Hc. simpl.
    intros [= [Hm Hin]%LookupDomain_range_true]. split; [done|].
    by apply (proj1 (Forall_forall _ _) Hdots).
  - intros Heq. split; [by apply splitDomain_own_suffix|apply Trim_ends_in_dot].
Qed.

Lemma splitDomain_trailing_dot_witness :
  is_suffix_of (sample_PublicSuffix (Trim "a.example.co.uk" dot))
               (Trim "a.example.co.uk" dot) ∧
  ∃ cands, splitDomain sample_PublicSuffix "a.example.co.uk" = Some cands ∧
           Forall (λ c, ends_in_one_dot c = true) cands.
Proof.
  assert (is_suffix_of (sample_PublicSuffix (Trim "a.example.co.uk" dot))
                       (Trim "a.example.co.uk" dot)) as Hsuf
    by (by exists "a.example.").
  split; [exact Hsuf|].
  destruct (splitDomain_trailing_dot sample_PublicSuffix "a.example.co.uk" Hsuf)
    as [H _].
  destruct H as (cands & Hc & Hdots & _); [by vm_compute|].
  by exists cands.
Defined.

(** ** The claims about [checkAndUpdateFilterList] *)

(** The shape of a run: nothing at all without a path; otherwise the
    schedule call, the stat, and then at most one parse. *)
Lemma checkAndUpdateFilterList_trace (env : Env) (st : State) :
  (getFilePath env = "" ∧ checkAndUpdateFilterList env st = (st, [])) ∨
  (getFilePath env ≠ "" ∧
   ∃ rest,
     (checkAndUpdateFilterList env st).2 =
       ScheduleEv (now_schedule env + 1 * Minute) :: StatEv (getFilePath env) :: rest ∧
     (rest = [] ∧ (checkAndUpdateFilterList env st).1 = st ∨
      rest = [ParseEv (getFilePath env)
                (parseFile env (getFilePath env) (lists st)).2])).
Proof.
  unfold checkAndUpdateFilterList.
  destruct (String.eqb_spec (getFilePath env) "") as [E|E]; [by left|].
  right. split; [done|].
  destruct (negb _ || negb _).
  - destruct (parseFile env (getFilePath env) (lists st)) as [parsed [e|]];
      eexists; (split; [reflexivity|by right]).
  - eexists. split; [reflexivity|by left].
Qed.

(** An event cannot be in a trace that lists only other events. *)
Ltac absurd_event H :=
  exfalso;
  repeat (apply elem_of_cons in H as [H|H]; [discriminate H|]);
  by apply elem_of_nil in H.

(** Whatever [parseFile] does to the maps, a failed parse leaves the recorded
    path and modification time as they were. *)
Lemma parse_failure_keeps_record (env : Env) (st : State) (e : error) :
  ParseEv (getFilePath env) (Some e) ∈ (checkAndUpdateFilterList env st).2 →
  filterListFilePath (checkAndUpdateFilterList env st).1 = filterListFilePath st ∧
  filterListFileModifiedTime (checkAndUpdateFilterList env st).1
    = filterListFileModifiedTime st.
Proof.
  unfold checkAndUpdateFilterList.
  destruct (String.eqb (getFilePath env) ""); [by intros ?%elem_of_nil|].
  destruct (negb _ || negb _).
  - destruct (parseFile env (getFilePath env) (lists st)) as [parsed [e'|]]; [done|].
    simpl. intros H. absurd_event H.
  - simpl. intros H. absurd_event H.
Qed.

(** C5: when the parse of the configured file fails during a run, the run
    ends with the four sets, the recorded path and the recorded modification
    time as they were, and every lookup answers as before. *)
Theorem parse_failure_keeps_state
    (PublicSuffix : string → string) (IP : Type) (IP_String : IP → string)
    (parsed : string → option FilterLists) (env : Env) (st : State) (e : error) :
  parseFile env = parseFile_spec parsed →
  ParseEv (getFilePath env) (Some e) ∈ (checkAndUpdateFilterList env st).2 →
  let st' := (checkAndUpdateFilterList env st).1 in
  lists st' = lists st ∧
  filterListFilePath st' = filterListFilePath st ∧
  filterListFileModifiedTime st' = filterListFileModifiedTime st ∧
  (∀ ip, LookupIP IP IP_String st' ip = LookupIP IP IP_String st ip) ∧
  (∀ domain sub,
     LookupDomain PublicSuffix st' domain sub = LookupDomain PublicSuffix st domain sub) ∧
  (∀ number, LookupASN st' number = LookupASN st number) ∧
  (∀ code, LookupCountry st' code = LookupCountry st code).
Proof.
  intros Hparse Hev st'.
  destruct (parse_failure_keeps_record env st e Hev) as [Hpath Hmtime].
  assert (lists st' = lists st) as Hlists.
  { subst st'. revert Hev. unfold checkAndUpdateFilterList.
    destruct (String.eqb (getFilePath env) ""); [done|].
    destruct (negb _ || negb _); [|done].
    rewrite Hparse. unfold parseFile_spec.
    destruct (parsed (getFilePath env)) as [new|]; [|done].
    simpl. intros H. absurd_event H. }
  repeat split; try done.
  - intros ip. unfold LookupIP. by rewrite Hlists.
  - intros domain sub. unfold LookupDomain. by rewrite Hlists.
  - intros number. unfold LookupASN. by rewrite Hlists.
  - intros code. unfold LookupCountry. by rewrite Hlists.
Qed.

Lemma parse_failure_keeps_state_witness :
  (checkAndUpdateFilterList sample_env_broken sample_state).1 = sample_state ∧
  LookupDomain sample_PublicSuffix
    (checkAndUpdateFilterList sample_env_broken sample_state).1
    "a.example.co.uk" true = Some (true, "example.co.uk.").
Proof.
  destruct (parse_failure_keeps_state sample_PublicSuffix string id
              (λ _, None) sample_env_broken sample_state ParseError)
    as (_ & _ & _ & _ & Hdomain & _).
  - reflexivity.
  - do 2 apply list_elem_of_further. apply list_elem_of_here.
  - split; [reflexivity|]. rewrite Hdomain. by vm_compute.
Defined.

(** C6: when the configured path is the recorded one and the stat succeeds
    with the recorded modification time, a run parses nothing and leaves the
    four sets, the recorded path and the recorded modification time as they
    were; so does a second such run after it. *)
Theorem unchanged_file_is_noop (env env' : Env) (st : State) :
  getFilePath env = filterListFilePath st →
  os_Stat env (getFilePath env) = Some (filterListFileModifiedTime st) →
  getFilePath env' = filterListFilePath st →
  os_Stat env' (getFilePath env') = Some (filterListFileModifiedTime st) →
  let first := checkAndUpdateFilterList env st in
  let second := checkAndUpdateFilterList env' first.1 in
  first.1 = st ∧ existsb is_parse first.2 = false ∧
  second.1 = st ∧ existsb is_parse second.2 = false.
Proof.
  assert (∀ env0, getFilePath env0 = filterListFilePath st →
            os_Stat env0 (getFilePath env0) = Some (filterListFileModifiedTime st) →
            (checkAndUpdateFilterList env0 st).1 = st ∧
            existsb is_parse (checkAndUpdateFilterList env0 st).2 = false) as Hone.
  { intros env0 Hpath Hstat. unfold checkAndUpdateFilterList.
    destruct (String.eqb (getFilePath env0) ""); [done|].
    rewrite Hstat, <- Hpath, String.eqb_refl.
    unfold Time_Equal. by rewrite Z.eqb_refl. }
  intros Hpath Hstat Hpath' Hstat' first second.
  destruct (Hone env Hpath Hstat) as [H1 H2].
  subst second. subst first. rewrite H1.
  destruct (Hone env' Hpath' Hstat') as [H3 H4]. done.
Qed.

Lemma unchanged_file_is_noop_witness :
  (checkAndUpdateFilterList sample_env_unchanged sample_state).1 = sample_state ∧
  existsb is_parse (checkAndUpdateFilterList sample_env_unchanged sample_state).2
    = false.
Proof.
  destruct (unchanged_file_is_noop sample_env_unchanged sample_env_unchanged
              sample_state) as (H1 & H2 & _); [reflexivity..|].
  split; [exact H1|exact H2].
Defined.

(** C7: a run calls [parserTask.Schedule] exactly when the configured path is
    not empty.  With an empty path it changes nothing and calls nothing; with
    a path it schedules first, one minute ahead, then stats, then parses at
    most once, whatever the parse returns. *)
Theorem schedule_iff_path_configured (env : Env) (st : State) :
  let st' := (checkAndUpdateFilterList env st).1 in
  let trace := (checkAndUpdateFilterList env st).2 in
  (existsb is_schedule trace = true ↔ getFilePath env ≠ "") ∧
  (getFilePath env = "" → st' = st ∧ trace = []) ∧
  (getFilePath env ≠ "" →
   ∃ rest, trace = ScheduleEv (now_schedule env + 1 * Minute)
                     :: StatEv (getFilePath env) :: rest ∧
           (rest = [] ∨ ∃ err, rest = [ParseEv (getFilePath env) err])).
Proof.
  intros st' trace. subst st' trace.
  destruct (checkAndUpdateFilterList_trace env st)
    as [[Hp Hr]|[Hp (rest & Ht & Hrest)]].
  - rewrite Hr. simpl. split; [|split]; [|done|done].
    split; [done|]. by intros [].
  - rewrite Ht. simpl. split; [done|]. split; [done|].
    intros _. exists rest. split; [done|].
    destruct Hrest as [[-> _] | ->]; [by left|right; eauto].
Qed.

(** C8: with a path configured and the stat failing, the time read before
    the stat stands in for the modification time: the run parses when the
    path changed or that time differs from the recorded one, and a parse
    that succeeds records that time. *)
Theorem stat_failure_uses_now (env : Env) (st : State) :
  getFilePath env ≠ "" →
  os_Stat env (getFilePath env) = None →
  filterListFilePath st ≠ getFilePath env ∨
    filterListFileModifiedTime st ≠ now_stat env →
  let st' := (checkAndUpdateFilterList env st).1 in
  let trace := (checkAndUpdateFilterList env st).2 in
  let err := (parseFile env (getFilePath env) (lists st)).2 in
  trace = [ScheduleEv (now_schedule env + 1 * Minute);
           StatEv (getFilePath env); ParseEv (getFilePath env) err] ∧
  (err = None →
   filterListFileModifiedTime st' = now_stat env ∧
   filterListFilePath st' = getFilePath env) ∧
  (err ≠ None →
   filterListFileModifiedTime st' = filterListFileModifiedTime st ∧
   filterListFilePath st' = filterListFilePath st).
Proof.
  intros Hp Hstat Hchanged st' trace err. subst st' trace err.
  unfold checkAndUpdateFilterList.
  destruct (String.eqb_spec (getFilePath env) "") as [?|_]; [done|].
  rewrite Hstat.
  assert (negb (filterListFilePath st =? getFilePath env)%string
          || negb (Time_Equal (filterListFileModifiedTime st) (now_stat env)) = true)
    as ->.
  { apply orb_true_iff. destruct Hchanged as [H|H]; [left|right];
      apply negb_true_iff.
    - by apply String.eqb_neq.
    - unfold Time_Equal. by apply Z.eqb_neq. }
  destruct (parseFile env (getFilePath env) (lists st)) as [parsed [e|]]; simpl; done.
Qed.

Lemma stat_failure_uses_now_witness :
  (checkAndUpdateFilterList sample_env_nostat sample_state).2 =
    [ScheduleEv (1700000660 * 1000000000);
     StatEv "/etc/portmaster/custom.list";
     ParseEv "/etc/portmaster/custom.list" None] ∧
  filterListFileModifiedTime (checkAndUpdateFilterList sample_env_nostat sample_state).1
    = now_stat sample_env_nostat.
Proof.
  destruct (stat_failure_uses_now sample_env_nostat sample_state)
    as (Ht & Hok & _); [done|reflexivity|by right|].
  split; [exact Ht|]. by apply Hok.
Defined.

(** ** Further properties of [splitDomain] and [LookupDomain] *)

Lemma splitDomain_candidate_is_Some (suffix : string) (splitted : list string) (idx : nat) :
  is_Some (splitDomain_candidate suffix splitted idx).
Proof.
  unfold splitDomain_candidate.
  destruct (last_byte (Join (drop idx splitted) "." +:+ "." +:+ suffix))
    as [c|] eqn:E; [by eexists|].
  apply last_byte_None, sapp_eq_empty in E as [_ E].
  rewrite sapp_cons in E. discriminate E.
Qed.

Lemma mapM_Some_elem {A B} (f : A → option B) (l : list A) (k : list B) (y : B) :
  mapM f l = Some k → y ∈ k → ∃ x, x ∈ l ∧ f x = Some y.
Proof.
  intros H%mapM_Some_1. induction H as [|x z l k Hxz _ IH]; intros Hy.
  - by apply elem_of_nil in Hy.
  - apply elem_of_cons in Hy as [->|Hy].
    + exists x. split; [apply list_elem_of_here|done].
    + destruct (IH Hy) as (x' & Hx' & Hf). exists x'.
      split; [by apply list_elem_of_further|done].
Qed.

Lemma Trim_cons (s : string) (c : ascii) : Trim (String c s) c = Trim s c.
Proof.
  unfold Trim. simpl. destruct (trimRightByte s c) as [|b r].
  - by rewrite Ascii.eqb_refl.
  - simpl. by rewrite Ascii.eqb_refl.
Qed.

Lemma Trim_idem (s : string) (c : ascii) : Trim (Trim s c) c = Trim s c.
Proof. apply Trim_id; [apply Trim_first|apply Trim_last]. Qed.

Lemma trimRightByte_first_keep (s : string) (a c : ascii) :
  first_byte s = Some a → a ≠ c → first_byte (trimRightByte s c) = Some a.
Proof.
  destruct s as [|b s]; [done|]. intros [= ->] Hne. simpl.
  destruct (trimRightByte s c); [|done].
  by destruct (Ascii.eqb_spec a c).
Qed.

Lemma Trim_first_keep (s : string) (a c : ascii) :
  first_byte s = Some a → a ≠ c → first_byte (Trim s c) = Some a.
Proof.
  intros Hf Hne. unfold Trim.
  pose proof (trimRightByte_first_keep s a c Hf Hne) as H.
  rewrite trimLeftByte_id; [done|]. rewrite H. congruence.
Qed.

Lemma FieldsFunc_first_nonempty (s : string) (a : ascii) :
  first_byte s = Some a → a ≠ dot → FieldsFunc s (λ r, Ascii.eqb r dot) ≠ [].
Proof.
  destruct s as [|b s]; [done|]. intros [= ->] Hne. unfold FieldsFunc. simpl.
  destruct (fields_from _ s) as [cur fields].
  apply Ascii.eqb_neq in Hne. by rewrite Hne.
Qed.

Lemma trimRightByte_dots (s : string) : dots_only s = true → trimRightByte s dot = "".
Proof.
  induction s as [|a s IH]; [done|]. simpl. intros [Ha Hs]%andb_prop.
  by rewrite (IH Hs), Ha.
Qed.

Lemma LookupDomain_range_cases (domains : gset string) (l : list string) :
  (∃ pre m post, l = pre ++ m :: post ∧ m ∈ domains ∧
     Forall (λ c, c ∉ domains) pre ∧ LookupDomain_range domains l = (true, m)) ∨
  (Forall (λ c, c ∉ domains) l ∧ LookupDomain_range domains l = (false, "")).
Proof.
  induction l as [|d l IH]; [by right|]. simpl. case_bool_decide as Hd.
  - left. by exists [], d, l.
  - destruct IH as [(pre & m & post & -> & Hm & Hpre & Hr)|[Hall Hr]].
    + left. exists (d :: pre), m, post. repeat split; [done| |done].
      by apply Forall_cons.
    + right. split; [by apply Forall_cons|done].
Qed.

(** X1: the only panic of [splitDomain] is the slice, taken when the public
    suffix differs from the trimmed name and is longer than it; the index
    [d[len(d)-1]] of the loop never panics. *)
Theorem splitDomain_panics_iff (PublicSuffix : string → string) (domain : string) :
  splitDomain PublicSuffix domain = None ↔
  PublicSuffix (Trim domain dot) ≠ Trim domain dot ∧
  (String.length (Trim domain dot)
     < String.length (PublicSuffix (Trim domain dot)))%nat.
Proof.
  unfold splitDomain.
  destruct (String.eqb_spec (PublicSuffix (Trim domain dot)) (Trim domain dot))
    as [E|E].
  - split; [done|]. by intros [? _].
  - unfold slice_to, len.
    destruct (Z.ltb_spec
                (Z.of_nat (String.length (Trim domain dot))
                 - Z.of_nat (String.length (PublicSuffix (Trim domain dot)))) 0)
      as [H|H]; simpl.
    + split; [|done]. intros _. split; [done|lia].
    + destruct (Z.ltb_spec
                  (Z.of_nat (String.length (Trim domain dot)))
                  (Z.of_nat (String.length (Trim domain dot))
                   - Z.of_nat (String.length (PublicSuffix (Trim domain dot)))))
        as [H'|H']; [lia|]. simpl. split.
      * intros Hn. apply mapM_None, Exists_exists in Hn as (idx & _ & Hidx).
        destruct (splitDomain_candidate_is_Some
                    (PublicSuffix (Trim domain dot))
                    (FieldsFunc
                       (Trim (take_bytes
                                (Z.to_nat
                                   (Z.of_nat (String.length (Trim domain dot))
                                    - Z.of_nat (String.length
                                                  (PublicSuffix (Trim domain dot)))))
                                (Trim domain dot)) dot)
                       (λ r, Ascii.eqb r dot)) idx) as [c Hc].
        congruence.
      * intros [_ ?]. lia.
Qed.

(** X2: with [filterSubdomains], dots around the queried name do not matter:
    a name, the name with a leading dot, with a trailing dot, and the name
    trimmed of its dots all get the same answer. *)
Theorem LookupDomain_surrounding_dots
    (PublicSuffix : string → string) (st : State) (fullDomain : string) :
  LookupDomain PublicSuffix st ("." +:+ fullDomain) true
    = LookupDomain PublicSuffix st fullDomain true ∧
  LookupDomain PublicSuffix st (fullDomain +:+ ".") true
    = LookupDomain PublicSuffix st fullDomain true ∧
  LookupDomain PublicSuffix st (Trim fullDomain dot) true
    = LookupDomain PublicSuffix st fullDomain true.
Proof.
  unfold LookupDomain, splitDomain.
  change ("." +:+ fullDomain) with (String dot fullDomain).
  change "."%string with (String dot "").
  by rewrite Trim_cons, Trim_snoc, Trim_idem.
Qed.

(** X3: with [filterSubdomains], the answer is the first candidate of
    [splitDomain] that is in the domain set, and [(false, "")] exactly when
    no candidate is in it. *)
Theorem LookupDomain_first_listed
    (PublicSuffix : string → string) (st : State) (fullDomain : string)
    (cands : list string) :
  splitDomain PublicSuffix fullDomain = Some cands →
  (∃ pre m post, cands = pre ++ m :: post ∧
     m ∈ domainsFilterList (lists st) ∧
     Forall (λ c, c ∉ domainsFilterList (lists st)) pre ∧
     LookupDomain PublicSuffix st fullDomain true = Some (true, m)) ∨
  (Forall (λ c, c ∉ domainsFilterList (lists st)) cands ∧
   LookupDomain PublicSuffix st fullDomain true = Some (false, "")).
Proof.
  intros Hc. unfold LookupDomain. rewrite Hc. simpl.
  destruct (LookupDomain_range_cases (domainsFilterList (lists st)) cands)
    as [(pre & m & post & -> & Hm & Hpre & Hr)|[Hall Hr]].
  - left. exists pre, m, post. by rewrite Hr.
  - right. by rewrite Hr.
Qed.

Lemma LookupDomain_first_listed_witness :
  splitDomain sample_PublicSuffix "a.example.co.uk"
    = Some ["a.example.co.uk."; "example.co.uk."] ∧
  ((∃ pre m post,
      ["a.example.co.uk."; "example.co.uk."] = pre ++ m :: post ∧
      m ∈ domainsFilterList (lists sample_state) ∧
      Forall (λ c, c ∉ domainsFilterList (lists sample_state)) pre ∧
      LookupDomain sample_PublicSuffix sample_state "a.example.co.uk" true
        = Some (true, m)) ∨
   (Forall (λ c, c ∉ domainsFilterList (lists sample_state))
      ["a.example.co.uk."; "example.co.uk."] ∧
    LookupDomain sample_PublicSuffix sample_state "a.example.co.uk" true
      = Some (false, ""))).
Proof.
  split; [reflexivity|].
  apply (LookupDomain_first_listed sample_PublicSuffix sample_state
           "a.example.co.uk" ["a.example.co.uk."; "example.co.uk."]).
  reflexivity.
Defined.

(** X4: for a name made of labels joined by dots and followed by its public
    suffix, [splitDomain] returns one candidate per label; the first is the
    trimmed name with a closing dot, and each next one is the one before it
    without its leftmost label. *)
Theorem splitDomain_drops_leftmost_label
    (PublicSuffix : string → string) (domain : string)
    (labels : list string) (suffix : string) :
  labels ≠ [] →
  forallb is_label labels = true →
  Trim domain dot = Join labels "." +:+ "." +:+ suffix →
  PublicSuffix (Trim domain dot) = suffix →
  ∃ cands,
    splitDomain PublicSuffix domain = Some cands ∧
    length cands = length labels ∧
    cands !! 0%nat = Some (Trim domain dot +:+ ".") ∧
    ∀ i c c', cands !! i = Some c → cands !! S i = Some c' →
              ∃ l, labels !! i = Some l ∧ c = l +:+ "." +:+ c'.
Proof.
  intros Hne Hlabels Ht Hps.
  assert (Forall (λ e, is_label e = true) labels) as HF.
  { apply Forall_forall. intros x Hx. apply list_elem_of_In in Hx.
    by apply (proj1 (forallb_forall _ _) Hlabels). }
  exists (candidate labels suffix <$> seq 0 (length labels)).
  split; [by apply splitDomain_labels|].
  split; [by rewrite length_fmap, length_seq|]. split.
  - destruct labels as [|l0 labels]; [done|]. simpl.
    unfold candidate. rewrite drop_0, Ht. by rewrite !sapp_assoc.
  - intros i c c'. rewrite !list_lookup_fmap.
    intros Hi HSi.
    destruct (seq 0 (length labels) !! S i) as [j|] eqn:Ej; [|done].
    apply lookup_seq in Ej as [-> Hlt]. simpl in HSi. injection HSi as <-.
    rewrite lookup_seq_lt in Hi by lia. simpl in Hi. injection Hi as <-.
    destruct (labels !! i) as [l|] eqn:El;
      [|apply lookup_ge_None in El; lia].
    exists l. split; [done|]. unfold candidate.
    rewrite (drop_S labels l i El).
    destruct (drop (S i) labels) as [|l' rest] eqn:Ed.
    { apply (f_equal length) in Ed. rewrite length_drop in Ed. simpl in Ed. lia. }
    by rewrite Join_cons2, !sapp_assoc.
Qed.

Lemma splitDomain_drops_leftmost_label_witness :
  ∃ cands,
    splitDomain sample_PublicSuffix "www.mail.example.com." = Some cands ∧
    length cands = 3%nat ∧
    cands !! 0%nat = Some "www.mail.example.com." ∧
    ∀ i c c', cands !! i = Some c → cands !! S i = Some c' →
              ∃ l, ["www"; "mail"; "example"] !! i = Some l ∧ c = l +:+ "." +:+ c'.
Proof.
  apply (splitDomain_drops_leftmost_label sample_PublicSuffix
           "www.mail.example.com." ["www"; "mail"; "example"] "com");
    [done|reflexivity|reflexivity|reflexivity].
Defined.

(** X5: when the public suffix is a non-empty proper suffix of the trimmed
    name, [splitDomain] returns at least one candidate, and every candidate
    is one or more labels, a dot, the public suffix and a closing dot; the
    public suffix alone is never a candidate. *)
Theorem splitDomain_never_bare_suffix
    (PublicSuffix : string → string) (domain : string) :
  is_suffix_of (PublicSuffix (Trim domain dot)) (Trim domain dot) →
  PublicSuffix (Trim domain dot) ≠ Trim domain dot →
  PublicSuffix (Trim domain dot) ≠ "" →
  ∃ cands,
    splitDomain PublicSuffix domain = Some cands ∧
    cands ≠ [] ∧
    ∀ c, c ∈ cands →
      (∃ labels, labels ≠ [] ∧ Forall (λ e, is_label e = true) labels ∧
         c = Join labels "." +:+ "." +:+ PublicSuffix (Trim domain dot) +:+ ".") ∧
      c ≠ PublicSuffix (Trim domain dot) +:+ "." ∧
      c ≠ PublicSuffix (Trim domain dot).
Proof.
  intros Hsuf Hne Hs. pose proof (suffix_of_trimmed_last _ _ Hsuf) as Hl.
  destruct Hsuf as [p Hp].
  assert (p ≠ "") as Hpne by (intros ->; by rewrite sapp_nil_l in Hp).
  assert (∃ a, first_byte p = Some a ∧ a ≠ dot) as (a & Ha & Hadot).
  { pose proof (Trim_first domain dot) as Hf. rewrite Hp in Hf.
    rewrite first_byte_app in Hf by done.
    destruct p as [|a p]; [done|]. exists a. split; [done|]. simpl in Hf. congruence. }
  unfold splitDomain.
  destruct (String.eqb_spec (PublicSuffix (Trim domain dot)) (Trim domain dot))
    as [?|_]; [done|].
  remember (PublicSuffix (Trim domain dot)) as suffix eqn:Hsuffix.
  rewrite Hp, slice_to_prefix. simpl.
  set (splitted := FieldsFunc (Trim p dot) (λ r, Ascii.eqb r dot)).
  assert (splitted ≠ []) as Hsplit.
  { apply (FieldsFunc_first_nonempty _ a); [|done]. by apply Trim_first_keep. }
  assert (Forall (λ e, is_label e = true) splitted) as Hlabels
    by apply FieldsFunc_labels.
  destruct (mapM_total_Forall (splitDomain_candidate suffix splitted)
              (λ _, True) (seq 0 (length splitted))) as (cands & Hc & _).
  { intros idx. destruct (splitDomain_candidate_is_Some suffix splitted idx) as [c ?].
    by exists c. }
  exists cands. split; [done|]. split.
  { intros ->. apply length_mapM in Hc. rewrite length_seq in Hc.
    by destruct splitted. }
  intros c Hin.
  destruct (mapM_Some_elem _ _ _ _ Hc Hin) as (idx & Hidx & Hcand).
  apply elem_of_seq in Hidx as [_ Hidx]. simpl in Hidx.
  rewrite splitDomain_candidate_suffix in Hcand by done. injection Hcand as <-.
  assert (drop idx splitted ≠ []) as Hdrop.
  { intros E. apply (f_equal length) in E. rewrite length_drop in E. simpl in E. lia. }
  assert (Join (drop idx splitted) "." ≠ "") as HJ.
  { apply Join_nonempty; [done|by apply Forall_drop]. }
  split; [|split].
  - exists (drop idx splitted). split; [done|]. split; [by apply Forall_drop|done].
  - rewrite <- (sapp_assoc _ "." (suffix +:+ ".")). apply sapp_neq_r.
    by intros [? _]%sapp_eq_empty.
  - intros E. apply (f_equal String.length) in E. rewrite !slength_app in E.
    simpl in E. lia.
Qed.

Lemma splitDomain_never_bare_suffix_witness :
  is_suffix_of (sample_PublicSuffix (Trim "a.example.co.uk" dot))
               (Trim "a.example.co.uk" dot) ∧
  ∃ cands,
    splitDomain sample_PublicSuffix "a.example.co.uk" = Some cands ∧
    cands ≠ [] ∧
    ∀ c, c ∈ cands → c ≠ "co.uk." ∧ c ≠ "co.uk".
Proof.
  assert (is_suffix_of (sample_PublicSuffix (Trim "a.example.co.uk" dot))
                       (Trim "a.example.co.uk" dot)) as Hsuf
    by (by exists "a.example.").
  split; [exact Hsuf|].
  destruct (splitDomain_never_bare_suffix sample_PublicSuffix "a.example.co.uk" Hsuf)
    as (cands & Hc & Hne & Hall); [by vm_compute|by vm_compute|].
  exists cands. split; [exact Hc|]. split; [exact Hne|].
  intros c Hin. destruct (Hall c Hin) as (_ & H1 & H2). split; [exact H1|exact H2].
Defined.

(** X6: a queried name that is empty or made of dots only is trimmed to the
    empty string; [splitDomain] then returns the empty string as its only
    candidate when the public suffix of the empty string is empty, and
    panics on the slice otherwise. *)
Theorem splitDomain_only_dots (PublicSuffix : string → string) (domain : string) :
  dots_only domain = true →
  (PublicSuffix "" = "" → splitDomain PublicSuffix domain = Some [""]) ∧
  (PublicSuffix "" ≠ "" → splitDomain PublicSuffix domain = None).
Proof.
  intros Hd. unfold splitDomain, Trim. rewrite (trimRightByte_dots _ Hd). simpl.
  split.
  - intros ->. done.
  - intros Hne. destruct (String.eqb_spec (PublicSuffix "") "") as [?|_]; [done|].
    unfold slice_to, len. simpl.
    destruct (PublicSuffix "") as [|a s]; [done|]. done.
Qed.

Lemma splitDomain_only_dots_witness :
  dots_only "..." = true ∧ splitDomain sample_PublicSuffix "..." = Some [""].
Proof.
  split; [reflexivity|].
  apply (splitDomain_only_dots sample_PublicSuffix "..."); reflexivity.
Defined.

(** X7: with [filterSubdomains], a name that is matched stays matched when
    entries are added to the domain set. *)
Theorem LookupDomain_more_entries
    (PublicSuffix : string → string) (st st' : State) (fullDomain m : string) :
  domainsFilterList (lists st) ⊆ domainsFilterList (lists st') →
  LookupDomain PublicSuffix st fullDomain true = Some (true, m) →
  ∃ m', LookupDomain PublicSuffix st' fullDomain true = Some (true, m') ∧
        m' ∈ domainsFilterList (lists st').
Proof.
  intros Hsub. unfold LookupDomain.
  destruct (splitDomain PublicSuffix fullDomain) as [cands|]; [|done]. simpl.
  intros [= [Hin Hm]%LookupDomain_range_true].
  destruct (LookupDomain_range_cases (domainsFilterList (lists st')) cands)
    as [(pre & m' & post & -> & Hm' & _ & Hr)|[Hall _]].
  - exists m'. by rewrite Hr.
  - exfalso. apply (proj1 (Forall_forall _ _) Hall m Hin). by apply Hsub.
Qed.

Lemma LookupDomain_more_entries_witness :
  ∃ m', LookupDomain sample_PublicSuffix sample_state_more "a.example.co.uk" true
          = Some (true, m') ∧
        m' ∈ domainsFilterList (lists sample_state_more).
Proof.
  apply (LookupDomain_more_entries sample_PublicSuffix sample_state
           sample_state_more "a.example.co.uk" "example.co.uk.").
  - simpl. apply union_subseteq_l.
  - by vm_compute.
Defined.

(** X8: no line is both a country code and an autonomous system: a match of
    [isCountryCode] has two bytes, a match of [isAutonomousSystem] at least
    three. *)
Theorem isCountryCode_not_isAutonomousSystem (s : string) :
  isCountryCode s = true → isAutonomousSystem s = false.
Proof.
  destruct s as [|a [|b [|c s]]]; try done. intros _.
  unfold isAutonomousSystem.
  destruct (Ascii.eqb_spec a "A") as [->|Ha]; [|by destruct a as [[][][][][][][][]]].
  destruct (Ascii.eqb_spec b "S") as [->|Hb]; [done|].
  by destruct b as [[][][][][][][][]].
Qed.

Lemma isCountryCode_not_isAutonomousSystem_witness :
  isCountryCode "AS" = true ∧ isAutonomousSystem "AS" = false.
Proof.
  split; [reflexivity|]. by apply isCountryCode_not_isAutonomousSystem.
Defined.

(** ** Further properties of [checkAndUpdateFilterList] *)

(** The guard of a run, as a proposition. *)
Lemma changed_guard (env : Env) (st : State) :
  negb (String.eqb (filterListFilePath st) (getFilePath env))
  || negb (Time_Equal (filterListFileModifiedTime st) (modifiedTime env)) = true ↔
  filterListFilePath st ≠ getFilePath env ∨
  filterListFileModifiedTime st ≠ modifiedTime env.
Proof.
  rewrite orb_true_iff, !negb_true_iff. unfold Time_Equal.
  by rewrite String.eqb_neq, Z.eqb_neq.
Qed.

Lemma checkAndUpdateFilterList_unfold (env : Env) (st : State) :
  checkAndUpdateFilterList env st =
    if String.eqb (getFilePath env) "" then (st, [])
    else if negb (String.eqb (filterListFilePath st) (getFilePath env))
            || negb (Time_Equal (filterListFileModifiedTime st) (modifiedTime env))
    then
      let result := parseFile env (getFilePath env) (lists st) in
      let trace := [ScheduleEv (now_schedule env + 1 * Minute);
                    StatEv (getFilePath env);
                    ParseEv (getFilePath env) result.2] in
      match result.2 with
      | Some _ =>
          ({| lists := result.1;
              filterListFilePath := filterListFilePath st;
              filterListFileModifiedTime := filterListFileModifiedTime st |},
           trace)
      | None =>
          ({| lists := result.1;
              filterListFilePath := getFilePath env;
              filterListFileModifiedTime := modifiedTime env |},
           trace)
      end
    else (st, [ScheduleEv (now_schedule env + 1 * Minute); StatEv (getFilePath env)]).
Proof.
  unfold checkAndUpdateFilterList, modifiedTime.
  destruct (String.eqb (getFilePath env) ""); [done|].
  destruct (negb _ || negb _); [|done].
  by destruct (parseFile env (getFilePath env) (lists st)) as [parsed [e|]].
Qed.

(** When a run parses. *)
Lemma run_parses_iff (env : Env) (st : State) :
  existsb is_parse (checkAndUpdateFilterList env st).2 = true ↔
  getFilePath env ≠ "" ∧
  (filterListFilePath st ≠ getFilePath env ∨
   filterListFileModifiedTime st ≠ modifiedTime env).
Proof.
  rewrite <- changed_guard, checkAndUpdateFilterList_unfold.
  destruct (String.eqb_spec (getFilePath env) "") as [E|E].
  - simpl. split; [done|]. by intros [? _].
  - destruct (negb _ || negb _).
    + destruct (parseFile env (getFilePath env) (lists st)) as [parsed [e|]];
        simpl; by split.
    + simpl. split; [done|]. by intros [_ ?].
Qed.

(** The state a run leaves. *)
Lemma run_state (env : Env) (st : State) :
  let st' := (checkAndUpdateFilterList env st).1 in
  let trace := (checkAndUpdateFilterList env st).2 in
  let result := parseFile env (getFilePath env) (lists st) in
  (existsb is_parse trace = false → st' = st) ∧
  (existsb is_parse trace = true →
   lists st' = result.1 ∧
   (result.2 = None →
    filterListFilePath st' = getFilePath env ∧
    filterListFileModifiedTime st' = modifiedTime env) ∧
   (result.2 ≠ None →
    filterListFilePath st' = filterListFilePath st ∧
    filterListFileModifiedTime st' = filterListFileModifiedTime st)).
Proof.
  intros st' trace result. subst st' trace result.
  rewrite checkAndUpdateFilterList_unfold.
  destruct (String.eqb (getFilePath env) ""); [done|].
  destruct (negb _ || negb _); [|done].
  destruct (parseFile env (getFilePath env) (lists st)) as [parsed [e|]];
    simpl; done.
Qed.

(** X9: a run calls [parseFile] exactly when a path is configured and either
    it differs from the recorded path or the modification time (the file's,
    or the current time when the stat fails) differs from the recorded one. *)
Theorem parse_attempted_iff (env : Env) (st : State) :
  existsb is_parse (checkAndUpdateFilterList env st).2 = true ↔
  getFilePath env ≠ "" ∧
  (filterListFilePath st ≠ getFilePath env ∨
   filterListFileModifiedTime st ≠ modifiedTime env).
Proof. exact (run_parses_iff env st). Qed.

(** X10: a run that does not parse returns the state as it was; a run that
    parses leaves in the maps what [parseFile] left there, whether it failed
    or not, with no rollback; it records the configured path and the
    modification time exactly when [parseFile] returned no error. *)
Theorem state_after_run (env : Env) (st : State) :
  let st' := (checkAndUpdateFilterList env st).1 in
  let trace := (checkAndUpdateFilterList env st).2 in
  let result := parseFile env (getFilePath env) (lists st) in
  (existsb is_parse trace = false → st' = st) ∧
  (existsb is_parse trace = true →
   lists st' = result.1 ∧
   (result.2 = None →
    filterListFilePath st' = getFilePath env ∧
    filterListFileModifiedTime st' = modifiedTime env) ∧
   (result.2 ≠ None →
    filterListFilePath st' = filterListFilePath st ∧
    filterListFileModifiedTime st' = filterListFileModifiedTime st)).
Proof. exact (run_state env st). Qed.

(** X11: after a run in which the stat succeeded and [parseFile] returned no
    error (or was not needed), a run that finds the same path and the same
    modification time does not parse and changes nothing. *)
Theorem success_then_noop (env env' : Env) (st : State) (modTime : Time) :
  getFilePath env ≠ "" →
  os_Stat env (getFilePath env) = Some modTime →
  (parseFile env (getFilePath env) (lists st)).2 = None →
  getFilePath env' = getFilePath env →
  os_Stat env' (getFilePath env') = Some modTime →
  let st1 := (checkAndUpdateFilterList env st).1 in
  existsb is_parse (checkAndUpdateFilterList env' st1).2 = false ∧
  (checkAndUpdateFilterList env' st1).1 = st1.
Proof.
  intros Hp Hstat Hok Hp' Hstat' st1.
  assert (modifiedTime env = modTime) as Hm by (unfold modifiedTime; by rewrite Hstat).
  assert (modifiedTime env' = modTime) as Hm' by (unfold modifiedTime; by rewrite Hstat').
  assert (filterListFilePath st1 = getFilePath env' ∧
          filterListFileModifiedTime st1 = modifiedTime env') as [Hrp Hrm].
  { rewrite Hp', Hm', <- Hm.
    pose proof (run_state env st) as [Hno Hyes]. fold st1 in Hno, Hyes.
    destruct (existsb is_parse (checkAndUpdateFilterList env st).2) eqn:Ep.
    - by destruct (Hyes eq_refl) as (_ & Hrec & _); apply Hrec.
    - rewrite (Hno eq_refl).
      destruct (decide (filterListFilePath st = getFilePath env)) as [Hq|Hq];
        [destruct (decide (filterListFileModifiedTime st = modifiedTime env))
           as [?|Hq']; [done|]|].
      + assert (existsb is_parse (checkAndUpdateFilterList env st).2 = true)
          by (apply run_parses_iff; auto). congruence.
      + assert (existsb is_parse (checkAndUpdateFilterList env st).2 = true)
          by (apply run_parses_iff; auto). congruence. }
  assert (existsb is_parse (checkAndUpdateFilterList env' st1).2 = false) as Hnp.
  { apply not_true_is_false. intros [_ [H|H]]%run_parses_iff; congruence. }
  split; [done|]. by apply (run_state env' st1).
Qed.

Lemma success_then_noop_witness :
  existsb is_parse (checkAndUpdateFilterList sample_env_touched sample_state).2
    = true ∧
  existsb is_parse
    (checkAndUpdateFilterList sample_env_touched
       (checkAndUpdateFilterList sample_env_touched sample_state).1).2 = false.
Proof.
  split; [reflexivity|].
  apply (success_then_noop sample_env_touched sample_env_touched sample_state
           (1700000500 * 1000000000)); (done || reflexivity).
Defined.

(** X12: after a run whose parse failed, a run that finds the same path and
    the same modification time parses again: a failure is retried. *)
Theorem failure_then_retry (env env' : Env) (st : State) (e : error) :
  ParseEv (getFilePath env) (Some e) ∈ (checkAndUpdateFilterList env st).2 →
  getFilePath env' = getFilePath env →
  modifiedTime env' = modifiedTime env →
  existsb is_parse
    (checkAndUpdateFilterList env' (checkAndUpdateFilterList env st).1).2 = true.
Proof.
  intros Hev Hp' Hm'.
  destruct (parse_failure_keeps_record env st e Hev) as [Hrp Hrm].
  assert (existsb is_parse (checkAndUpdateFilterList env st).2 = true) as Hparsed.
  { apply existsb_exists. exists (ParseEv (getFilePath env) (Some e)).
    split; [by apply list_elem_of_In|done]. }
  apply run_parses_iff in Hparsed as [Hne Hchanged].
  apply run_parses_iff. rewrite Hp', Hm', Hrp, Hrm. done.
Qed.

Lemma failure_then_retry_witness :
  (checkAndUpdateFilterList sample_env_broken
     (checkAndUpdateFilterList sample_env_broken sample_state).1).2 =
    [ScheduleEv (1700000660 * 1000000000);
     StatEv "/etc/portmaster/custom.list";
     ParseEv "/etc/portmaster/custom.list" (Some ParseError)] ∧
  existsb is_parse
    (checkAndUpdateFilterList sample_env_broken
       (checkAndUpdateFilterList sample_env_broken sample_state).1).2 = true.
Proof.
  split; [reflexivity|].
  apply (failure_then_retry sample_env_broken sample_env_broken sample_state
           ParseError); [|reflexivity|reflexivity].
  do 2 apply list_elem_of_further. apply list_elem_of_here.
Defined.

(** X13: while the stat keeps failing, a file that parsed is parsed again at
    the next run as soon as the clock has moved: the recorded modification
    time is the clock reading of the run that parsed. *)
Theorem stat_failure_reparses (env env' : Env) (st : State) :
  getFilePath env ≠ "" →
  os_Stat env (getFilePath env) = None →
  (parseFile env (getFilePath env) (lists st)).2 = None →
  getFilePath env' = getFilePath env →
  os_Stat env' (getFilePath env') = None →
  now_stat env' ≠ now_stat env →
  let st1 := (checkAndUpdateFilterList env st).1 in
  filterListFileModifiedTime st1 = now_stat env ∧
  existsb is_parse (checkAndUpdateFilterList env' st1).2 = true.
Proof.
  intros Hp Hstat Hok Hp' Hstat' Hclock st1.
  assert (modifiedTime env = now_stat env) as Hm by (unfold modifiedTime; by rewrite Hstat).
  assert (modifiedTime env' = now_stat env') as Hm' by (unfold modifiedTime; by rewrite Hstat').
  assert (filterListFileModifiedTime st1 = now_stat env) as Hrm.
  { pose proof (run_state env st) as [Hno Hyes]. fold st1 in Hno, Hyes.
    destruct (existsb is_parse (checkAndUpdateFilterList env st).2) eqn:Ep.
    - destruct (Hyes eq_refl) as (_ & Hrec & _). rewrite <- Hm. by apply Hrec.
    - rewrite (Hno eq_refl).
      destruct (decide (filterListFileModifiedTime st = modifiedTime env))
        as [?|Hq]; [congruence|].
      assert (existsb is_parse (checkAndUpdateFilterList env st).2 = true)
        by (apply run_parses_iff; auto). congruence. }
  split; [done|]. apply run_parses_iff. split; [congruence|].
  right. congruence.
Qed.

Lemma stat_failure_reparses_witness :
  filterListFileModifiedTime
    (checkAndUpdateFilterList sample_env_nostat sample_state).1
    = now_stat sample_env_nostat ∧
  existsb is_parse
    (checkAndUpdateFilterList sample_env_nostat_later
       (checkAndUpdateFilterList sample_env_nostat sample_state).1).2 = true.
Proof.
  apply (stat_failure_reparses sample_env_nostat sample_env_nostat_later
           sample_state); (done || reflexivity).
Defined.

(** X14: while no path is configured, no sequence of triggers changes the
    state or makes any call: the lists loaded before stay in force. *)
Theorem runs_unset (envs : list Env) (st : State) :
  Forall (λ env, getFilePath env = "") envs →
  runs envs st = (st, (λ _, []) <$> envs).
Proof.
  induction 1 as [|env envs Hp _ IH]; [done|]. simpl.
  unfold checkAndUpdateFilterList. rewrite Hp. simpl. by rewrite IH.
Qed.

Lemma runs_unset_witness :
  runs [sample_env_unset; sample_env_unset] sample_state = (sample_state, [[]; []]).
Proof.
  apply (runs_unset [sample_env_unset; sample_env_unset] sample_state).
  by repeat constructor.
Defined.

(** X15: across any sequence of triggers the recorded path is the one
    recorded at the start or the non-empty path that one of the runs found
    configured; once a path is recorded, the recorded path is never empty
    again. *)
Theorem runs_recorded_path (envs : list Env) (st : State) :
  (filterListFilePath (runs envs st).1 = filterListFilePath st ∨
   ∃ env, env ∈ envs ∧ getFilePath env ≠ "" ∧
          filterListFilePath (runs envs st).1 = getFilePath env) ∧
  (filterListFilePath st ≠ "" → filterListFilePath (runs envs st).1 ≠ "").
Proof.
  assert (∀ env st0,
            filterListFilePath (checkAndUpdateFilterList env st0).1
              = filterListFilePath st0 ∨
            getFilePath env ≠ "" ∧
            filterListFilePath (checkAndUpdateFilterList env st0).1
              = getFilePath env) as Hone.
  { intros env st0. rewrite checkAndUpdateFilterList_unfold.
    destruct (String.eqb_spec (getFilePath env) "") as [?|Hne]; [by left|].
    destruct (negb _ || negb _); [|by left].
    destruct (parseFile env (getFilePath env) (lists st0)) as [parsed [e|]];
      simpl; [by left|by right]. }
  assert (filterListFilePath (runs envs st).1 = filterListFilePath st ∨
          ∃ env, env ∈ envs ∧ getFilePath env ≠ "" ∧
                 filterListFilePath (runs envs st).1 = getFilePath env) as Hall.
  { revert st. induction envs as [|env envs IH]; intros st; [by left|].
    simpl. destruct (checkAndUpdateFilterList env st) as [st1 trace] eqn:E1.
    specialize (IH st1). destruct (runs envs st1) as [st2 traces]. simpl in *.
    destruct IH as [IH|(env2 & Hin & Hne & IH)].
    - destruct (Hone env st) as [H|[Hne H]]; rewrite E1 in H; simpl in H.
      + left. congruence.
      + right. exists env. split; [apply list_elem_of_here|]. split; [done|congruence].
    - right. exists env2. split; [by apply list_elem_of_further|done]. }
  split; [exact Hall|]. intros Hst.
  destruct Hall as [->|(env & _ & Hne & ->)]; done.
Qed.
